(** * Pagination customizations of the AWS CLI: a shallow embedding

    Source: [awscli/customizations/paginate.py].

    The module rewrites the argument table of every operation that can be
    paginated: the service specific paging arguments are marked as
    undocumented, a [starting-token] and a [max-items] argument are added,
    and a handler is registered that switches pagination off when the user
    passes one of the undocumented arguments by hand.

    Python objects are embedded as records, dictionaries as [gmap]s, [None]
    as [option], and the in-place mutation of the argument table, of the
    session's handler list and of the parsed globals as a state monad whose
    computations either return or raise; the state reached when an exception
    is raised is kept, as it is in Python. *)

From Stdlib Require Import String Ascii ZArith.
From stdpp Require Import base option list gmap strings fin_maps.

Open Scope string_scope.
Open Scope list_scope.

(** ** Python strings *)

Module PyStr.

(** [s.lstrip('-')]: every leading hyphen is dropped. *)
Fixpoint lstrip (c : ascii) (s : string) : string :=
  match s with
  | EmptyString => EmptyString
  | String a s' => if Ascii.eqb a c then lstrip c s' else s
  end.

(** [s.replace(old, new)] for a non-empty [old]: the occurrences of [old]
    are replaced from the left, without overlap.  [skip] counts the
    characters of an occurrence that are still to be dropped. *)
Fixpoint replace_from (old new : string) (skip : nat) (s : string) : string :=
  match s with
  | EmptyString => EmptyString
  | String a s' =>
      match skip with
      | S k => replace_from old new k s'
      | O =>
          if String.prefix old s
          then new +:+ replace_from old new (String.length old - 1) s'
          else String a (replace_from old new 0 s')
      end
  end.

Definition replace (old new s : string) : string := replace_from old new 0 s.

End PyStr.

(** ** Exceptions and the state monad *)

Inductive exn : Type :=
| KeyError (key : option string)
| AttributeError (attr : string)
| TypeError (msg : string)
| ArgumentError (flag : string).

Inductive outcome (A : Type) : Type :=
| Returned (a : A)
| Raised (e : exn).
Arguments Returned {A} a.
Arguments Raised {A} e.

(** A computation over a mutable store [S]: the store it leaves, and either
    the value returned or the exception raised. *)
Definition M (S A : Type) : Type := S → S * outcome A.

Definition ret {S A} (a : A) : M S A := λ s, (s, Returned a).
Definition raise {S A} (e : exn) : M S A := λ s, (s, Raised e).
Definition bind {S A B} (m : M S A) (k : A → M S B) : M S B :=
  λ s, match m s with
       | (s', Returned a) => k a s'
       | (s', Raised e) => (s', Raised e)
       end.
Definition modify {S} (f : S → S) : M S unit := λ s, (f s, Returned tt).

Declare Scope py_scope.
Delimit Scope py_scope with py.
Notation "x <- m ;; k" := (bind m (λ x, k))
  (at level 100, m at next level, right associativity) : py_scope.
Notation "m ;;; k" := (bind m (λ _, k))
  (at level 100, right associativity) : py_scope.
Open Scope py_scope.

(** [for x in xs: body(x)]: the loop stops at the first exception. *)
Fixpoint for_each {S A} (xs : list A) (body : A → M S unit) : M S unit :=
  match xs with
  | [] => ret tt
  | x :: xs' => body x ;;; for_each xs' body
  end.

(** ** Operations and their parameters (botocore, read only) *)

Record Param : Type := mkParam {
  param_name : string;
  param_cli_name : string;
  param_type : string }.

(** [pagination['input_token']] is one name or a list of names. *)
Inductive Tokens : Type :=
| OneToken (t : string)
| TokenList (ts : list string).

(** The pagination configuration: [input_token], and [limit_key] when the
    dictionary has that key. *)
Record Pagination : Type := mkPagination {
  input_token : Tokens;
  limit_key : option string }.

Record Operation : Type := mkOperation {
  op_name : string;
  can_paginate : bool;
  pagination : Pagination;
  params : list Param }.

(** ** Name helpers *)

(** The first parameter named [token_name] gives the CLI name; falling off
    the loop returns [None]. *)
Fixpoint _get_cli_name (param_objects : list Param) (token_name : string)
  : option string :=
  match param_objects with
  | [] => None
  | param :: rest =>
      if String.eqb (param_name param) token_name
      then Some (PyStr.lstrip "-" (param_cli_name param))
      else _get_cli_name rest token_name
  end.

Definition _get_input_tokens (operation : Operation) : list string :=
  match input_token (pagination operation) with
  | OneToken t => [t]
  | TokenList ts => ts
  end.

(** The generator, as the list of the values it yields.  [acc] holds what
    has been yielded so far. *)
Fixpoint yield_cli_names (param_objects : list Param) (tokens : list string)
    (acc : list (option string)) : list (option string) :=
  match tokens with
  | [] => acc
  | token_name :: rest =>
      yield_cli_names param_objects rest
        (acc ++ [_get_cli_name param_objects token_name])
  end.

Definition _get_all_cli_input_tokens (operation : Operation)
  : list (option string) :=
  let yielded :=
    yield_cli_names (params operation) (_get_input_tokens operation) [] in
  match limit_key (pagination operation) with
  | Some key_name => yielded ++ [_get_cli_name (params operation) key_name]
  | None => yielded
  end.

(** ** Arguments of the CLI *)

(** Parsed values and request parameters: what a command line can carry. *)
Inductive Value : Type :=
| VStr (s : string)
| VInt (z : Z).

(** The callables a parser can be asked to convert with: [str] and [int]. *)
Inductive Converter : Type := py_str | py_int.

(** [botocore.parameters.StringParameter(operation, name=..., type=...)]
    stores what it is given. *)
Record StringParameter : Type := mkStringParameter {
  sp_operation : string;
  sp_name : string;
  sp_type : string }.

Module PageArgument.

Record t : Type := mk {
  _name : string;
  argument_object : StringParameter;
  _documentation : string;
  _parse_type : string }.

Definition type_map : gmap string Converter :=
  <["integer" := py_int]> (<["string" := py_str]> ∅).

(** [__init__] only stores its arguments. *)
Definition __init__ (name documentation : string) (operation : Operation)
    (parse_type : string) : outcome t :=
  let param := mkStringParameter (op_name operation) name parse_type in
  Returned (mk name param documentation parse_type).

Definition cli_name (self : t) : string := "--" +:+ _name self.
Definition cli_type_name (self : t) : string := _parse_type self.
Definition required (self : t) : bool := false.
Definition documentation (self : t) : string := _documentation self.

(** Modelled from the spec: [BaseCLIArgument.py_name], inherited from
    [awscli/arguments.py], which is not among the sources: the key form of
    the name used for parsed arguments, hyphens turned into underscores, as
    [check_should_enable_pagination] computes it from a CLI name. *)
Definition py_name (self : t) : string := PyStr.replace "-" "_" (_name self).

(** What [parser.add_argument(flag, dest=..., type=...)] records. *)
Record ParserOption : Type := mkOption {
  opt_flag : string;
  opt_dest : string;
  opt_type : Converter }.

(** What an [argparse] parser does with an option whose flag it already
    holds: [conflict_handler='error'], the default, or ['resolve']. *)
Inductive ConflictHandler : Type := conflict_error | conflict_resolve.

(** The parser: its conflict handler and the options added so far, each
    under one flag, in the order in which they were added. *)
Record Parser : Type := mkParser {
  conflict_handler : ConflictHandler;
  options : list ParserOption }.

Definition holds_flag (parser : Parser) (flag : string) : bool :=
  existsb (λ option, String.eqb (opt_flag option) flag) (options parser).

(** [parser.add_argument(flag, dest=dest, type=conv)].  A flag the parser
    already holds is a conflict: the handler [error] raises and adds
    nothing, the handler [resolve] takes the flag from the earlier option,
    which has no other flag and is dropped, and adds the new one. *)
Definition add_argument (flag dest : string) (conv : Converter)
  : M Parser unit :=
  λ parser,
    if holds_flag parser flag
    then match conflict_handler parser with
         | conflict_error => (parser, Raised (ArgumentError flag))
         | conflict_resolve =>
             (mkParser conflict_resolve
                (List.filter
                   (λ option, negb (String.eqb (opt_flag option) flag))
                   (options parser)
                 ++ [mkOption flag dest conv]),
              Returned tt)
         end
    else (mkParser (conflict_handler parser)
            (options parser ++ [mkOption flag dest conv]),
          Returned tt).

(** The converter is looked up before the parser is called. *)
Definition add_to_parser (self : t) : M Parser unit :=
  match type_map !! _parse_type self with
  | None => raise (KeyError (Some (_parse_type self)))
  | Some conv => add_argument (cli_name self) (py_name self) conv
  end.

Definition add_to_params (self : t) (value : option Value)
  : M (gmap string Value) unit :=
  match value with
  | Some v => modify (λ parameters, <[py_name self := v]> parameters)
  | None => ret tt
  end.

End PageArgument.

(** An entry of the argument table: an argument built by the framework for
    a parameter of the operation, or a page argument.  [_UNDOCUMENTED] tells
    whether the attribute of that name is set to [True] on the object; this
    module sets it and never clears it. *)
Inductive Descriptor : Type :=
| ServiceArgument (p : Param)
| PagingArgument (a : PageArgument.t).

Record Argument : Type := mkArgument {
  descriptor : Descriptor;
  _UNDOCUMENTED : bool }.

Definition documented (d : Descriptor) : Argument := mkArgument d false.

(** [arg._UNDOCUMENTED = True] *)
Definition set_undocumented (a : Argument) : Argument :=
  mkArgument (descriptor a) true.

(** ** The argument table and the session *)

(** The handler [partial(check_should_enable_pagination, input_tokens)] is
    kept as the list it closes over. *)
Record Env : Type := mkEnv {
  argument_table : gmap string Argument;
  registered : list (string * list (option string)) }.

(** [argument_table[key]]; the keys of the table are strings, so [None] is
    never one of them. *)
Definition getitem (key : option string) : M Env Argument :=
  λ env,
    match key with
    | None => (env, Raised (KeyError None))
    | Some k =>
        match argument_table env !! k with
        | Some a => (env, Returned a)
        | None => (env, Raised (KeyError (Some k)))
        end
    end.

(** [argument_table[key] = a] *)
Definition setitem (key : string) (a : Argument) : M Env unit :=
  modify (λ env, mkEnv (<[key := a]> (argument_table env)) (registered env)).

(** [operation.session.register(event, handler)] *)
Definition register (event : string) (input_tokens : list (option string))
  : M Env unit :=
  modify (λ env,
    mkEnv (argument_table env)
          (registered env ++ [(event, input_tokens)])).

Definition STARTING_TOKEN_HELP : string := "
<p>A token to specify where to start paginating.  This is the
<code>NextToken</code> from a previously truncated response.</p>
".

Definition MAX_ITEMS_HELP : string := "
<p>The total number of items to return.  If the total number
of items available is more than the value specified in
max-items then a <code>NextToken</code> will
be provided in the output that you can use to resume pagination.
".

(** [argument_table[cli_name]._UNDOCUMENTED = True]: the object under the
    key is marked and the key stays.  Every key of the table holds an
    object of its own, so marking it is storing the marked entry back. *)
Definition mark (cli_name : option string) : M Env unit :=
  a <- getitem cli_name ;;
  match cli_name with
  | Some k => setitem k (set_undocumented a)
  | None => ret tt
  end.

Definition _remove_existing_paging_arguments (operation : Operation)
  : M Env unit :=
  for_each (_get_all_cli_input_tokens operation) mark.

(** [limit_param]: the first parameter named by [limit_key], if the
    configuration has one. *)
Definition find_limit_param (operation : Operation) : option Param :=
  match limit_key (pagination operation) with
  | Some key => List.find (λ param, String.eqb (param_name param) key)
                          (params operation)
  | None => None
  end.

(** [limit_param and limit_param.type or 'integer']: a parameter object is
    true, a type is true unless it is the empty string. *)
Definition limit_type (limit_param : option Param) : string :=
  match limit_param with
  | Some param =>
      if String.eqb (param_type param) "" then "integer" else param_type param
  | None => "integer"
  end.

Definition unsupported_message (type_ operation_name parameter_name : string)
  : string :=
  "Unsupported pagination type " +:+ type_ +:+ " for operation "
    +:+ operation_name +:+ " and parameter " +:+ parameter_name.

Definition new_page_argument (name documentation : string)
    (operation : Operation) (parse_type : string) : M Env Argument :=
  λ env,
    match PageArgument.__init__ name documentation operation parse_type with
    | Returned a => (env, Returned (documented (PagingArgument a)))
    | Raised e => (env, Raised e)
    end.

(** [event_name.replace('building-argument-table.',
    'operation-args-parsed.')]: the event the handler is registered for. *)
Definition parsed_args_event (event_name : string) : string :=
  PyStr.replace "building-argument-table." "operation-args-parsed." event_name.

Definition unify_paging_params (operation : Operation) (event_name : string)
  : M Env unit :=
  if negb (can_paginate operation) then ret tt
  else
    _remove_existing_paging_arguments operation ;;;
    register (parsed_args_event event_name)
             (_get_all_cli_input_tokens operation) ;;;
    starting <- new_page_argument "starting-token" STARTING_TOKEN_HELP
                  operation "string" ;;
    setitem "starting-token" starting ;;;
    let limit_param := find_limit_param operation in
    let type_ := limit_type limit_param in
    match limit_param with
    | Some param =>
        match PageArgument.type_map !! param_type param with
        | None =>
            raise (TypeError (unsupported_message type_ (op_name operation)
                                (param_name param)))
        | Some _ => ret tt
        end
    | None => ret tt
    end ;;;
    max_items <- new_page_argument "max-items" MAX_ITEMS_HELP operation type_ ;;
    setitem "max-items" max_items.

(** ** The handler run once the arguments are parsed *)

(** [token.replace('-', '_')]; [None] has no such method. *)
Definition replace_method {S} (token : option string) : M S string :=
  match token with
  | Some s => ret (PyStr.replace "-" "_" s)
  | None => raise (AttributeError "replace")
  end.

(** [getattr(parsed_args, name)]: the namespace maps an attribute to its
    value, [None] included; a name it does not have raises. *)
Definition getattr {S} (parsed_args : gmap string (option Value))
    (attr : string) : M S (option Value) :=
  match parsed_args !! attr with
  | Some v => ret v
  | None => raise (AttributeError attr)
  end.

(** The store of the handler is [parsed_globals.paginate]. *)
Definition check_token (parsed_args : gmap string (option Value))
    (token : option string) : M bool unit :=
  py_name <- replace_method token ;;
  v <- getattr parsed_args py_name ;;
  match v with
  | Some _ => modify (λ _, false)
  | None => ret tt
  end.

Definition check_should_enable_pagination (input_tokens : list (option string))
    (parsed_args : gmap string (option Value)) : M bool unit :=
  for_each input_tokens (check_token parsed_args).

(** * The vocabulary of the statements *)

(** ** Names *)

(** The names the pagination configuration declares: the input tokens,
    then the limit key if there is one. *)
Definition paging_names (operation : Operation) : list string :=
  _get_input_tokens operation
  ++ match limit_key (pagination operation) with
     | Some key_name => [key_name]
     | None => []
     end.

(** The attribute under which the parser stores the value of an option. *)
Definition key_form (cli_name : string) : string :=
  PyStr.replace "-" "_" cli_name.

(** ** Parsed arguments *)

(** The namespace has the attribute, whatever its value. *)
Definition has_attribute (parsed_args : gmap string (option Value))
    (cli_name : string) : bool :=
  match parsed_args !! key_form cli_name with
  | Some _ => true
  | None => false
  end.

(** The attribute holds a value: the user passed the option. *)
Definition supplied (parsed_args : gmap string (option Value))
    (cli_name : string) : bool :=
  match parsed_args !! key_form cli_name with
  | Some (Some _) => true
  | _ => false
  end.

(** The attribute is [None]: the user did not pass the option. *)
Definition absent (parsed_args : gmap string (option Value))
    (cli_name : string) : bool :=
  match parsed_args !! key_form cli_name with
  | Some None => true
  | _ => false
  end.

(** ** Argument tables *)

(** The entry built for a page argument: a fresh object, documented. *)
Definition page_argument (name documentation : string)
    (operation : Operation) (parse_type : string) : Argument :=
  documented (PagingArgument
    (PageArgument.mk name
       (mkStringParameter (op_name operation) name parse_type)
       documentation parse_type)).

(** The [max-items] argument of an operation without a limit key. *)
Definition max_items_argument (operation : Operation) : PageArgument.t :=
  PageArgument.mk "max-items"
    (mkStringParameter (op_name operation) "max-items" "integer")
    MAX_ITEMS_HELP "integer".

(** The entry under the key exists and is marked as undocumented. *)
Definition hidden_in (env : Env) (c : string) : Prop :=
  ∃ a, argument_table env !! c = Some a ∧ _UNDOCUMENTED a = true.

(** The two stores have the same handlers and, under every key, entries
    that describe the same argument: they differ in marks at most. *)
Definition same_entries (env env' : Env) : Prop :=
  registered env' = registered env
  ∧ ∀ k, descriptor <$> argument_table env' !! k
         = descriptor <$> argument_table env !! k.

(** ** Examples *)

(** Three descriptors whose CLI names are their names behind the option
    marker. *)
Definition marker_params : list Param :=
  [ mkParam "marker" "--marker" "string";
    mkParam "marker2" "--marker2" "string";
    mkParam "max_results" "--max-results" "integer" ].

Module Example.

Definition marker : Param := mkParam "marker" "--marker" "string".

Definition max_results : Param :=
  mkParam "max_results" "--max-results" "boolean".

(** One input token, no limit key. *)
Definition list_objects : Operation :=
  mkOperation "list-objects" true (mkPagination (OneToken "marker") None)
    [marker].

(** A limit key whose parameter is declared as a boolean. *)
Definition list_things : Operation :=
  mkOperation "list-things" true
    (mkPagination (OneToken "marker") (Some "max_results"))
    [marker; max_results].

(** An input token that is the name of no parameter. *)
Definition list_streams : Operation :=
  mkOperation "list-streams" true (mkPagination (OneToken "NextToken") None)
    marker_params.

(** An operation that cannot be paginated. *)
Definition describe_thing : Operation :=
  mkOperation "describe-thing" false (mkPagination (OneToken "marker") None)
    marker_params.

Definition table : gmap string Argument :=
  <["marker" := documented (ServiceArgument marker)]>
    (<["max-results" := documented (ServiceArgument max_results)]> ∅).

Definition hidden_table : gmap string Argument :=
  <["marker" := mkArgument (ServiceArgument marker) true]>
    (<["max-results" := mkArgument (ServiceArgument max_results) true]> ∅).

Definition event : string := "building-argument-table.svc.list-things".

End Example.

(** The CLI-facing name of a declared name, as the parameters give it: the
    CLI name, without its leading hyphens, of the first parameter that has
    the name, and [None] when no parameter has it. *)
Definition cli_facing_name (param_objects : list Param)
    (token_name : string) : option string :=
  (λ param, PyStr.lstrip "-" (param_cli_name param))
    <$> List.find (λ param, String.eqb (param_name param) token_name)
                  param_objects.

(** Parameters whose CLI names have no, one and three leading hyphens. *)
Definition odd_params : list Param :=
  [ mkParam "plain" "plain" "string";
    mkParam "Marker" "-marker" "string";
    mkParam "Odd" "---odd-name" "string";
    mkParam "Marker" "--shadowed" "string" ].

(** ** Strings, tables and token lists of the further properties *)

(** [n] hyphens in a row. *)
Fixpoint hyphens (n : nat) : string :=
  match n with
  | O => EmptyString
  | S k => String "-" (hyphens k)
  end.

Definition starts_with_hyphen (s : string) : bool :=
  match s with
  | String a _ => Ascii.eqb a "-"
  | EmptyString => false
  end.

(** A hyphen becomes an underscore, any other character stays. *)
Definition underscore (a : ascii) : ascii :=
  if Ascii.eqb a "-" then "_"%char else a.

(** The yielded name is a string and a key of the table. *)
Definition in_table (table : gmap string Argument)
    (cli_name : option string) : bool :=
  match cli_name with
  | Some c => match table !! c with Some _ => true | None => false end
  | None => false
  end.

(** The table after the entries under the yielded names have been marked,
    one name after the other; a name that is no key changes nothing. *)
Definition marked (cli_names : list (option string))
    (table : gmap string Argument) : gmap string Argument :=
  foldl (λ t cli_name,
           match cli_name with
           | Some c => alter set_undocumented c t
           | None => t
           end) table cli_names.

(** The strings among the yielded names. *)
Definition strings_of (cli_names : list (option string)) : list string :=
  omap id cli_names.

(** The type is a key of the type map of the page arguments. *)
Definition supported_type (parse_type : string) : bool :=
  match PageArgument.type_map !! parse_type with
  | Some _ => true
  | None => false
  end.

(** The limit parameter, if the operation has one, has a supported type. *)
Definition limit_type_supported (operation : Operation) : bool :=
  match find_limit_param operation with
  | Some param => supported_type (param_type param)
  | None => true
  end.

(** An operation with two input tokens and an integer limit key, and the
    argument table the framework builds for its parameters. *)
Module Paged.

Definition list_items : Operation :=
  mkOperation "list-items" true
    (mkPagination (TokenList ["marker"; "marker2"]) (Some "max_results"))
    marker_params.

Definition table : gmap string Argument :=
  <["marker" := documented (ServiceArgument
                  (mkParam "marker" "--marker" "string"))]>
    (<["marker2" := documented (ServiceArgument
                      (mkParam "marker2" "--marker2" "string"))]>
       (<["max-results" := documented (ServiceArgument
                    (mkParam "max_results" "--max-results" "integer"))]> ∅)).

Definition event : string := "building-argument-table.svc.list-items".

(** The user passed [--max-results 10] and neither marker. *)
Definition parsed_args : gmap string (option Value) :=
  <["marker" := None]>
    (<["marker2" := None]> (<["max_results" := Some (VInt 10)]> ∅)).

(** A parser that already holds the options of the three parameters. *)
Definition parser : PageArgument.Parser :=
  PageArgument.mkParser PageArgument.conflict_resolve
    [ PageArgument.mkOption "--marker" "marker" py_str;
      PageArgument.mkOption "--marker2" "marker2" py_str;
      PageArgument.mkOption "--max-results" "max_results" py_int ].

End Paged.

(** * Properties *)

(** ** The monad *)

Section Monad.
Context {S A B : Type}.

Lemma bind_returned (m : M S A) (k : A → M S B) s s' a :
  m s = (s', Returned a) → bind m k s = k a s'.
Proof. unfold bind. by intros ->. Qed.

Lemma bind_raised (m : M S A) (k : A → M S B) s s' e :
  m s = (s', Raised e) → bind m k s = (s', Raised e).
Proof. unfold bind. by intros ->. Qed.

Lemma for_each_cons (x : A) xs (body : A → M S unit) s :
  for_each (x :: xs) body s =
    match body x s with
    | (s', Returned _) => for_each xs body s'
    | (s', Raised e) => (s', Raised e)
    end.
Proof. reflexivity. Qed.

Lemma for_each_singleton (x : A) (body : A → M S unit) s :
  for_each [x] body s = body x s.
Proof.
  rewrite for_each_cons. destruct (body x s) as [s' [[]|e]]; reflexivity.
Qed.
End Monad.

(** ** The names of the paging arguments *)

Lemma yield_cli_names_app param_objects tokens acc :
  yield_cli_names param_objects tokens acc =
    acc ++ map (_get_cli_name param_objects) tokens.
Proof.
  revert acc. induction tokens as [|token_name rest IH]; intros acc; simpl.
  - by rewrite app_nil_r.
  - by rewrite IH, <- app_assoc.
Qed.

Lemma _get_all_cli_input_tokens_eq operation :
  _get_all_cli_input_tokens operation =
    map (_get_cli_name (params operation)) (_get_input_tokens operation)
    ++ match limit_key (pagination operation) with
       | Some key_name => [_get_cli_name (params operation) key_name]
       | None => []
       end.
Proof.
  unfold _get_all_cli_input_tokens. rewrite yield_cli_names_app. simpl.
  destruct (limit_key (pagination operation)); [done|by rewrite app_nil_r].
Qed.

Lemma _get_cli_name_find (param_objects : list Param) (token_name : string) :
  _get_cli_name param_objects token_name
  = (λ param, PyStr.lstrip "-" (param_cli_name param))
      <$> List.find (λ param, String.eqb (param_name param) token_name)
                    param_objects.
Proof.
  induction param_objects as [|param rest IH]; [done|]. simpl.
  by destruct (String.eqb (param_name param) token_name).
Qed.

(** C8: the generator yields the CLI-facing name of every declared input
    token, a single name being one token, in the order in which the tokens
    are declared, and then, exactly when the configuration has a limit key,
    the CLI-facing name of the limit key as its last element; the
    CLI-facing name is the CLI name of the first parameter of that name
    without its leading hyphens, and [None] for a name without a parameter.
    With the tokens [marker], [marker2] and the limit key [max_results] it
    yields [marker], [marker2], [max-results], in that order. *)
Theorem all_cli_input_tokens_in_order :
  (∀ operation,
     _get_all_cli_input_tokens operation =
       match input_token (pagination operation) with
       | OneToken token_name =>
           [cli_facing_name (params operation) token_name]
       | TokenList token_names =>
           map (cli_facing_name (params operation)) token_names
       end
       ++ match limit_key (pagination operation) with
          | Some key_name => [cli_facing_name (params operation) key_name]
          | None => []
          end)
  ∧ (∀ name paginate,
       _get_all_cli_input_tokens
         (mkOperation name paginate
            (mkPagination (TokenList ["marker"; "marker2"]) (Some "max_results"))
            marker_params)
       = [Some "marker"; Some "marker2"; Some "max-results"])
  ∧ (∀ name paginate,
       _get_all_cli_input_tokens
         (mkOperation name paginate
            (mkPagination (OneToken "marker2") (Some "max_results"))
            marker_params)
       = [Some "marker2"; Some "max-results"])
  ∧ (∀ name paginate,
       _get_all_cli_input_tokens
         (mkOperation name paginate
            (mkPagination (OneToken "marker") None) marker_params)
       = [Some "marker"])
  ∧ (∀ name paginate,
       _get_all_cli_input_tokens
         (mkOperation name paginate
            (mkPagination (TokenList ["Odd"; "NextToken"; "plain"])
                          (Some "Marker"))
            odd_params)
       = [Some "odd-name"; None; Some "plain"; Some "marker"]).
Proof.
  split; [|by repeat split].
  intros operation. rewrite _get_all_cli_input_tokens_eq.
  unfold _get_input_tokens, cli_facing_name. f_equal.
  - destruct (input_token (pagination operation)) as [token_name|token_names].
    + simpl. by rewrite _get_cli_name_find.
    + apply map_ext. intros token_name. apply _get_cli_name_find.
  - destruct (limit_key (pagination operation)); [|done].
    by rewrite _get_cli_name_find.
Qed.

(** ** Operations that cannot be paginated *)

(** C7: for an operation that cannot be paginated the call returns without
    an exception and leaves the store as it was: the argument table is the
    same table and no handler has been registered. *)
Theorem unify_not_paginated operation event_name env :
  can_paginate operation = false →
  unify_paging_params operation event_name env = (env, Returned tt).
Proof. unfold unify_paging_params. by intros ->. Qed.

Lemma unify_not_paginated_witness :
  unify_paging_params Example.describe_thing Example.event
    (mkEnv Example.table [])
  = (mkEnv Example.table [], Returned tt).
Proof. apply unify_not_paginated. reflexivity. Defined.

(** ** Page arguments *)

Section AddToParams.
Import PageArgument.
Implicit Types (self : PageArgument.t) (parameters : gmap string Value).

(** The argument stored under [max-items] for an operation without a limit
    key is this one. *)
Lemma page_argument_max_items operation :
  page_argument "max-items" MAX_ITEMS_HELP operation "integer"
  = documented (PagingArgument (max_items_argument operation)).
Proof. reflexivity. Qed.

(** C9: with a value the call stores it under the argument's key in the
    parameters, with [None] it leaves the parameters as they are.  For the
    option [--max-items], whose key is [max_items], the value 42 is found
    under [max_items] afterwards, and parameters without that key still
    lack it when no value was passed. *)
Theorem add_to_params_writes_value_or_nothing :
  (∀ self parameters v,
     (add_to_params self (Some v) parameters).2 = Returned tt
     ∧ (add_to_params self (Some v) parameters).1 !! py_name self = Some v)
  ∧ (∀ self parameters,
       add_to_params self None parameters = (parameters, Returned tt))
  ∧ (∀ operation parameters,
       cli_name (max_items_argument operation) = "--max-items"
       ∧ (add_to_params (max_items_argument operation) (Some (VInt 42))
            parameters).1 !! "max_items" = Some (VInt 42)
       ∧ (add_to_params (max_items_argument operation) None ∅).1
           !! "max_items" = None).
Proof.
  split; [|split].
  - intros self parameters v. split; [done|]. simpl. apply lookup_insert_eq.
  - done.
  - intros operation parameters. split; [done|]. split; [|done].
    simpl. apply (lookup_insert_eq parameters "max_items").
Qed.

(** C10: with a value, the call changes no entry of the parameters other
    than the one under the argument's own key. *)
Theorem add_to_params_frame self parameters v (k : string) :
  k ≠ py_name self →
  (add_to_params self (Some v) parameters).1 !! k = parameters !! k.
Proof. intros Hk. simpl. by apply lookup_insert_ne. Qed.

Lemma add_to_params_frame_witness :
  (add_to_params (max_items_argument Example.list_objects)
     (Some (VInt 42)) (<["marker" := VStr "abc"]> ∅)).1 !! "marker"
  = (<["marker" := VStr "abc"]> (∅ : gmap string Value)) !! "marker".
Proof. apply add_to_params_frame. vm_compute. discriminate. Defined.
End AddToParams.

(** ** The handler *)

Section Handler.
Implicit Types (parsed_args : gmap string (option Value)) (paginate : bool).

Lemma check_token_defined parsed_args cli_name paginate :
  has_attribute parsed_args cli_name = true →
  check_token parsed_args (Some cli_name) paginate =
    (if supplied parsed_args cli_name then false else paginate, Returned tt).
Proof.
  unfold has_attribute, supplied, check_token, replace_method, getattr, bind,
    key_form; simpl.
  destruct (parsed_args !! _) as [[v|]|]; by intros.
Qed.

Lemma check_token_missing parsed_args cli_name paginate :
  has_attribute parsed_args cli_name = false →
  check_token parsed_args (Some cli_name) paginate =
    (paginate, Raised (AttributeError (key_form cli_name))).
Proof.
  unfold has_attribute, check_token, replace_method, getattr, bind, key_form;
    simpl.
  destruct (parsed_args !! _) as [[v|]|]; by intros.
Qed.

Lemma check_defined hidden parsed_args paginate :
  forallb (has_attribute parsed_args) hidden = true →
  check_should_enable_pagination (Some <$> hidden) parsed_args paginate =
    (if existsb (supplied parsed_args) hidden then false else paginate,
     Returned tt).
Proof.
  unfold check_should_enable_pagination. revert paginate.
  induction hidden as [|cli_name rest IH]; intros paginate Hattr; [done|].
  simpl in Hattr. apply andb_prop in Hattr as [Hhere Hrest].
  rewrite fmap_cons, for_each_cons, (check_token_defined _ _ _ Hhere).
  rewrite (IH _ Hrest). simpl.
  destruct (supplied parsed_args cli_name), (existsb _ rest); reflexivity.
Qed.

Lemma absent_not_supplied hidden parsed_args :
  forallb (absent parsed_args) hidden = true →
  existsb (supplied parsed_args) hidden = false.
Proof.
  induction hidden as [|cli_name rest IH]; [done|]. simpl.
  intros [Hhere Hrest]%andb_prop. rewrite (IH Hrest), orb_false_r.
  unfold absent in Hhere. unfold supplied.
  by destruct (parsed_args !! _) as [[v|]|].
Qed.

(** What the handler does to the flag, and how it ends, is fixed by the
    names and the namespace: either the flag is cleared or it is left. *)
Lemma check_shape (input_tokens : list (option string)) parsed_args :
  ∃ (cleared : bool) (o : outcome unit), ∀ paginate,
    check_should_enable_pagination input_tokens parsed_args paginate =
      (if cleared then false else paginate, o).
Proof.
  unfold check_should_enable_pagination.
  induction input_tokens as [|token rest (cleared & o & IH)].
  - by exists false, (Returned tt).
  - destruct token as [cli_name|].
    + destruct (has_attribute parsed_args cli_name) eqn:Hattr.
      * exists (supplied parsed_args cli_name || cleared), o. intros paginate.
        rewrite for_each_cons, (check_token_defined _ _ _ Hattr), IH.
        by destruct (supplied parsed_args cli_name), cleared.
      * exists false, (Raised (AttributeError (key_form cli_name))).
        intros paginate.
        by rewrite for_each_cons, (check_token_missing _ _ _ Hattr).
    + by exists false, (Raised (AttributeError "replace")).
Qed.

(** Whether it returns or raises, a second run of the handler finds the
    flag as the first run left it. *)
Lemma check_flag_idempotent (input_tokens : list (option string))
    parsed_args paginate :
  check_should_enable_pagination input_tokens parsed_args
    (check_should_enable_pagination input_tokens parsed_args paginate).1
  = check_should_enable_pagination input_tokens parsed_args paginate.
Proof.
  destruct (check_shape input_tokens parsed_args) as (cleared & o & H).
  rewrite !H. simpl. by destruct cleared.
Qed.

(** C2, amended: when the namespace has an attribute, possibly [None],
    for the key form of every hidden name, the handler sets the flag to
    false if at least one of these attributes holds a value, and leaves the
    flag as it was if all of them are [None]; in both cases it returns. *)
Theorem check_clears_flag_iff_supplied (hidden : list string)
    parsed_args paginate :
  forallb (has_attribute parsed_args) hidden = true →
  (existsb (supplied parsed_args) hidden = true →
     check_should_enable_pagination (Some <$> hidden) parsed_args paginate
     = (false, Returned tt))
  ∧ (forallb (absent parsed_args) hidden = true →
       check_should_enable_pagination (Some <$> hidden) parsed_args paginate
       = (paginate, Returned tt)).
Proof.
  intros Hattr. rewrite (check_defined _ _ _ Hattr). split.
  - by intros ->.
  - by intros ->%absent_not_supplied.
Qed.

Lemma check_clears_flag_iff_supplied_witness :
  check_should_enable_pagination [Some "next-token"]
    (<["next_token" := Some (VStr "abc")]> ∅) true = (false, Returned tt)
  ∧ check_should_enable_pagination [Some "next-token"]
      (<["next_token" := None]> ∅) true = (true, Returned tt).
Proof.
  split.
  - apply (check_clears_flag_iff_supplied ["next-token"]
             (<["next_token" := Some (VStr "abc")]> ∅) true); reflexivity.
  - apply (check_clears_flag_iff_supplied ["next-token"]
             (<["next_token" := None]> ∅) true); reflexivity.
Defined.

(** C2 as stated fails: [max_results] holds a value, but the namespace
    has no attribute [marker], and reading it raises before the flag is
    touched. *)
Lemma check_missing_attribute_keeps_flag :
  existsb (supplied (<["max_results" := Some (VInt 10)]> ∅))
          ["marker"; "max-results"] = true
  ∧ check_should_enable_pagination [Some "marker"; Some "max-results"]
      (<["max_results" := Some (VInt 10)]> ∅) true
    = (true, Raised (AttributeError "marker")).
Proof. split; reflexivity. Qed.

(** C6, amended: when the namespace has an attribute, possibly [None],
    for the key form of every hidden name, the handler returns without an
    exception, and a second call with the same names and namespace returns
    as well and leaves the flag as the first call left it. *)
Theorem check_returns_and_is_idempotent (hidden : list string)
    parsed_args paginate :
  forallb (has_attribute parsed_args) hidden = true →
  ∃ paginate',
    check_should_enable_pagination (Some <$> hidden) parsed_args paginate
    = (paginate', Returned tt)
    ∧ check_should_enable_pagination (Some <$> hidden) parsed_args paginate'
      = (paginate', Returned tt).
Proof.
  intros Hattr. eexists. split; [apply (check_defined _ _ _ Hattr)|].
  rewrite (check_defined _ _ _ Hattr).
  by destruct (existsb _ hidden).
Qed.

Lemma check_returns_and_is_idempotent_witness :
  ∃ paginate',
    check_should_enable_pagination [Some "marker"; Some "max-results"]
      (<["max_results" := Some (VInt 10)]> (<["marker" := None]> ∅)) true
    = (paginate', Returned tt)
    ∧ check_should_enable_pagination [Some "marker"; Some "max-results"]
        (<["max_results" := Some (VInt 10)]> (<["marker" := None]> ∅))
        paginate'
      = (paginate', Returned tt).
Proof.
  apply (check_returns_and_is_idempotent ["marker"; "max-results"]
           (<["max_results" := Some (VInt 10)]> (<["marker" := None]> ∅))
           true).
  reflexivity.
Defined.

(** C6 as stated fails: a namespace without the attribute makes the
    handler raise. *)
Lemma check_raises_on_missing_attribute :
  check_should_enable_pagination [Some "next-token"] ∅ true
  = (true, Raised (AttributeError "next_token")).
Proof. reflexivity. Qed.
End Handler.

(** ** Hiding the paging arguments *)

Section Hiding.
Implicit Types (env : Env) (operation : Operation).

Lemma _get_all_cli_input_tokens_names operation :
  _get_all_cli_input_tokens operation =
    map (_get_cli_name (params operation)) (paging_names operation).
Proof.
  rewrite _get_all_cli_input_tokens_eq. unfold paging_names.
  rewrite map_app. by destruct (limit_key (pagination operation)).
Qed.

Lemma _get_cli_name_unmatched param_objects token_name :
  Forall (λ param, param_name param ≠ token_name) param_objects →
  _get_cli_name param_objects token_name = None.
Proof.
  induction 1 as [|param rest Hne _ IH]; [done|]. simpl.
  apply String.eqb_neq in Hne. by rewrite Hne.
Qed.

Lemma mark_present env c a :
  argument_table env !! c = Some a →
  mark (Some c) env =
    (mkEnv (<[c := set_undocumented a]> (argument_table env)) (registered env),
     Returned tt).
Proof. unfold mark, bind, getitem. by intros ->. Qed.

Lemma mark_missing env c :
  argument_table env !! c = None →
  mark (Some c) env = (env, Raised (KeyError (Some c))).
Proof. unfold mark, bind, getitem. by intros ->. Qed.

Lemma same_entries_refl env : same_entries env env.
Proof. by split. Qed.

Lemma same_entries_trans env1 env2 env3 :
  same_entries env1 env2 → same_entries env2 env3 → same_entries env1 env3.
Proof.
  intros [Hr12 Ht12] [Hr23 Ht23].
  split; [congruence|]. intros k. by rewrite Ht23.
Qed.

Lemma mark_same_entries cli_name env :
  same_entries env (mark cli_name env).1.
Proof.
  destruct cli_name as [c|]; [|apply same_entries_refl].
  destruct (argument_table env !! c) as [a|] eqn:Hc.
  - rewrite (mark_present _ _ _ Hc). split; [done|]. intros k. simpl.
    destruct (decide (c = k)) as [<-|Hne].
    + by rewrite lookup_insert_eq, Hc.
    + by rewrite lookup_insert_ne.
  - rewrite (mark_missing _ _ Hc). apply same_entries_refl.
Qed.

Lemma for_each_mark_same_entries cli_names env :
  same_entries env (for_each cli_names mark env).1.
Proof.
  revert env. induction cli_names as [|cli_name rest IH]; intros env.
  - apply same_entries_refl.
  - rewrite for_each_cons. pose proof (mark_same_entries cli_name env) as H.
    destruct (mark cli_name env) as [env' [[]|e]]; simpl in H; [|apply H].
    eapply same_entries_trans; [apply H|apply IH].
Qed.

(** A [None] among the names makes the loop raise a [KeyError]: at the
    [None] itself, or earlier at a name that is not in the table. *)
Lemma for_each_mark_none cli_names env :
  None ∈ cli_names →
  ∃ key, (for_each cli_names mark env).2 = Raised (KeyError key).
Proof.
  revert env. induction cli_names as [|cli_name rest IH]; intros env Hin.
  - by apply elem_of_nil in Hin.
  - rewrite for_each_cons. destruct cli_name as [c|]; [|by exists None].
    apply elem_of_cons in Hin as [|Hin]; [done|].
    destruct (argument_table env !! c) as [a|] eqn:Hc.
    + rewrite (mark_present _ _ _ Hc). by apply IH.
    + rewrite (mark_missing _ _ Hc). by exists (Some c).
Qed.

(** C5, amended: when a declared input token, or the limit key, is the
    name of no parameter of a paginated operation, the name lookup returns
    [None], and the caller uses it as a key of the argument table all the
    same: the call raises a [KeyError], with no handler registered and with
    neither [starting-token] nor [max-items] inserted (every key of the
    table describes what it described before, and no key is added). *)
Theorem unify_raises_on_unmatched_name operation event_name env token_name :
  can_paginate operation = true →
  token_name ∈ paging_names operation →
  Forall (λ param, param_name param ≠ token_name) (params operation) →
  _get_cli_name (params operation) token_name = None
  ∧ ∃ key,
      (unify_paging_params operation event_name env).2 = Raised (KeyError key)
      ∧ same_entries env (unify_paging_params operation event_name env).1.
Proof.
  intros Hpaginate Hin Hnone. apply _get_cli_name_unmatched in Hnone.
  split; [done|].
  assert (None ∈ _get_all_cli_input_tokens operation) as Hyield.
  { rewrite _get_all_cli_input_tokens_names, <- Hnone.
    apply list_elem_of_In, in_map, list_elem_of_In, Hin. }
  unfold unify_paging_params, _remove_existing_paging_arguments.
  rewrite Hpaginate. simpl.
  destruct (for_each_mark_none _ env Hyield) as [key Hkey].
  pose proof (for_each_mark_same_entries
                (_get_all_cli_input_tokens operation) env) as Hsame.
  destruct (for_each _ mark env) as [env' o] eqn:Hloop.
  simpl in Hkey, Hsame. subst o.
  exists key. by rewrite (bind_raised _ _ _ _ _ Hloop).
Qed.

Lemma unify_raises_on_unmatched_name_witness :
  _get_cli_name (params Example.list_streams) "NextToken" = None
  ∧ ∃ key,
      (unify_paging_params Example.list_streams Example.event
         (mkEnv Example.table [])).2 = Raised (KeyError key)
      ∧ same_entries (mkEnv Example.table [])
          (unify_paging_params Example.list_streams Example.event
             (mkEnv Example.table [])).1.
Proof.
  apply (unify_raises_on_unmatched_name Example.list_streams Example.event
           (mkEnv Example.table []) "NextToken").
  - reflexivity.
  - vm_compute. left.
  - vm_compute. repeat constructor; discriminate.
Defined.

(** C5 as stated fails: the input token names no parameter, and the call
    ends with a [KeyError] for the key [None]. *)
Lemma unify_unmatched_token_key_error :
  _get_cli_name (params Example.list_streams) "NextToken" = None
  ∧ unify_paging_params Example.list_streams Example.event
      (mkEnv Example.table [])
    = (mkEnv Example.table [], Raised (KeyError None)).
Proof. split; reflexivity. Qed.
End Hiding.

(** ** Adding the two page arguments *)

Section Unify.
Implicit Types (env : Env) (operation : Operation).

Lemma type_map_unsupported (parse_type : string) :
  parse_type ≠ "string" → parse_type ≠ "integer" →
  PageArgument.type_map !! parse_type = None.
Proof.
  intros Hs Hi. unfold PageArgument.type_map.
  rewrite lookup_insert_ne by done. rewrite lookup_insert_ne by done.
  apply lookup_empty.
Qed.

Lemma mark_keeps_hidden cli_name env c :
  hidden_in env c → hidden_in (mark cli_name env).1 c.
Proof.
  intros (a & Ha & Hu). destruct cli_name as [c'|]; [|by exists a].
  destruct (argument_table env !! c') as [a'|] eqn:Hc'.
  - rewrite (mark_present _ _ _ Hc'). unfold hidden_in. simpl.
    destruct (decide (c' = c)) as [->|Hne].
    + rewrite lookup_insert_eq. by eexists.
    + rewrite lookup_insert_ne by done. by exists a.
  - rewrite (mark_missing _ _ Hc'). by exists a.
Qed.

Lemma for_each_mark_keeps_hidden cli_names env c :
  hidden_in env c → hidden_in (for_each cli_names mark env).1 c.
Proof.
  revert env. induction cli_names as [|cli_name rest IH]; intros env H; [done|].
  rewrite for_each_cons. apply (mark_keeps_hidden cli_name) in H.
  destruct (mark cli_name env) as [env' [[]|e]]; simpl in H; [|done].
  by apply IH.
Qed.

(** When the loop returns, every name it went through is a key of the
    table whose entry is marked. *)
Lemma for_each_mark_hides cli_names env env' c :
  for_each cli_names mark env = (env', Returned tt) →
  Some c ∈ cli_names → hidden_in env' c.
Proof.
  revert env. induction cli_names as [|cli_name rest IH]; intros env Hrun Hin.
  - by apply elem_of_nil in Hin.
  - rewrite for_each_cons in Hrun.
    destruct (mark cli_name env) as [env1 [[]|e]] eqn:Hmark; [|done].
    apply elem_of_cons in Hin as [<-|Hin]; [|by eapply IH].
    assert (hidden_in env1 c) as Hc.
    { destruct (argument_table env !! c) as [a|] eqn:Ha.
      - rewrite (mark_present _ _ _ Ha) in Hmark. injection Hmark as <-.
        exists (set_undocumented a). simpl. by rewrite lookup_insert_eq.
      - by rewrite (mark_missing _ _ Ha) in Hmark. }
    apply (for_each_mark_keeps_hidden rest) in Hc. by rewrite Hrun in Hc.
Qed.

(** The call once the paging arguments are hidden: the handler is
    registered and [starting-token] inserted before the type of the limit
    parameter is looked at. *)
Lemma unify_after_hiding operation event_name env env' :
  can_paginate operation = true →
  _remove_existing_paging_arguments operation env = (env', Returned tt) →
  unify_paging_params operation event_name env =
    let handlers :=
      registered env' ++ [(parsed_args_event event_name,
                           _get_all_cli_input_tokens operation)] in
    let with_start :=
      <["starting-token" :=
          page_argument "starting-token" STARTING_TOKEN_HELP operation
            "string"]> (argument_table env') in
    let with_max type_ :=
      <["max-items" :=
          page_argument "max-items" MAX_ITEMS_HELP operation type_]>
        with_start in
    match find_limit_param operation with
    | Some param =>
        match PageArgument.type_map !! param_type param with
        | None =>
            (mkEnv with_start handlers,
             Raised (TypeError (unsupported_message
               (limit_type (Some param)) (op_name operation)
               (param_name param))))
        | Some _ =>
            (mkEnv (with_max (limit_type (Some param))) handlers,
             Returned tt)
        end
    | None => (mkEnv (with_max "integer") handlers, Returned tt)
    end.
Proof.
  intros Hpaginate Hhide. unfold unify_paging_params.
  rewrite Hpaginate. simpl. rewrite (bind_returned _ _ _ _ _ Hhide).
  unfold bind, register, new_page_argument, setitem, modify; simpl.
  destruct (find_limit_param operation) as [param|]; [|done].
  by destruct (PageArgument.type_map !! param_type param).
Qed.
End Unify.

Section UnifyClaims.
Implicit Types (env : Env) (operation : Operation).

(** C1, amended: for a paginated operation whose limit key names a
    parameter declared with a type other than [string] and [integer], and
    whose paging arguments are all in the argument table, the call raises
    the error for the unsupported type (a [TypeError] naming the type, the
    operation and the parameter) after it has changed the table: the
    paging arguments are marked as undocumented, the handler is registered
    and [starting-token] is inserted; only [max-items] is not inserted. *)
Theorem unify_unsupported_limit_type operation event_name env env' param :
  can_paginate operation = true →
  find_limit_param operation = Some param →
  param_type param ≠ "string" →
  param_type param ≠ "integer" →
  _remove_existing_paging_arguments operation env = (env', Returned tt) →
  unify_paging_params operation event_name env =
    (mkEnv
       (<["starting-token" :=
            page_argument "starting-token" STARTING_TOKEN_HELP operation
              "string"]> (argument_table env'))
       (registered env ++ [(parsed_args_event event_name,
                            _get_all_cli_input_tokens operation)]),
     Raised (TypeError (unsupported_message (limit_type (Some param))
                          (op_name operation) (param_name param))))
  ∧ (∀ c, Some c ∈ _get_all_cli_input_tokens operation → hidden_in env' c)
  ∧ (∀ k, descriptor <$> argument_table env' !! k
          = descriptor <$> argument_table env !! k).
Proof.
  intros Hpaginate Hparam Hs Hi Hhide.
  pose proof (for_each_mark_same_entries
                (_get_all_cli_input_tokens operation) env) as [Hreg Hdesc].
  unfold _remove_existing_paging_arguments in Hhide.
  rewrite Hhide in Hreg, Hdesc. simpl in Hreg, Hdesc.
  split; [|split; [|done]].
  - rewrite (unify_after_hiding _ _ _ _ Hpaginate Hhide), Hparam.
    simpl. by rewrite (type_map_unsupported _ Hs Hi), Hreg.
  - intros c Hc. by eapply for_each_mark_hides.
Qed.

Lemma unify_unsupported_limit_type_witness :
  unify_paging_params Example.list_things Example.event
    (mkEnv Example.table [])
  = (mkEnv
       (<["starting-token" :=
            page_argument "starting-token" STARTING_TOKEN_HELP
              Example.list_things "string"]> Example.hidden_table)
       [("operation-args-parsed.svc.list-things",
         [Some "marker"; Some "max-results"])],
     Raised (TypeError "Unsupported pagination type boolean for operation list-things and parameter max_results")).
Proof.
  apply (unify_unsupported_limit_type Example.list_things Example.event
           (mkEnv Example.table []) (mkEnv Example.hidden_table [])
           Example.max_results).
  - reflexivity.
  - reflexivity.
  - vm_compute. discriminate.
  - vm_compute. discriminate.
  - vm_compute. reflexivity.
Defined.

(** C1 as stated fails: the boolean limit parameter makes the call raise,
    but by then [marker] has been marked and [starting-token] inserted. *)
Lemma unify_error_after_mutation :
  let r := unify_paging_params Example.list_things Example.event
             (mkEnv Example.table []) in
  r.2 = Raised (TypeError "Unsupported pagination type boolean for operation list-things and parameter max_results")
  ∧ _UNDOCUMENTED <$> Example.table !! "marker" = Some false
  ∧ _UNDOCUMENTED <$> argument_table r.1 !! "marker" = Some true
  ∧ Example.table !! "starting-token" = None
  ∧ argument_table r.1 !! "starting-token"
    = Some (page_argument "starting-token" STARTING_TOKEN_HELP
              Example.list_things "string")
  ∧ argument_table r.1 !! "max-items" = None.
Proof. vm_compute. repeat split. Qed.

(** C3, amended: for a paginated operation with a single input token and
    no limit key, whose token names a parameter whose CLI name is a key of
    the argument table other than [starting-token] and [max-items], the call
    returns; the entry of that CLI name is still there and is marked as
    undocumented, every other entry under a key other than [starting-token]
    and [max-items] is as it was, and these two keys, the only ones that
    can be new, hold the two page arguments: [starting-token], typed as
    string, and [max-items], typed as integer. *)
Theorem unify_single_token_no_limit operation event_name env token_name c a :
  can_paginate operation = true →
  input_token (pagination operation) = OneToken token_name →
  limit_key (pagination operation) = None →
  _get_cli_name (params operation) token_name = Some c →
  argument_table env !! c = Some a →
  c ≠ "starting-token" →
  c ≠ "max-items" →
  ∃ table',
    unify_paging_params operation event_name env =
      (mkEnv table'
         (registered env ++ [(parsed_args_event event_name, [Some c])]),
       Returned tt)
    ∧ table' !! c = Some (set_undocumented a)
    ∧ (∀ k, k ≠ c → k ≠ "starting-token" → k ≠ "max-items" →
            table' !! k = argument_table env !! k)
    ∧ table' !! "starting-token"
      = Some (page_argument "starting-token" STARTING_TOKEN_HELP operation
                "string")
    ∧ table' !! "max-items"
      = Some (page_argument "max-items" MAX_ITEMS_HELP operation "integer")
    ∧ dom table' = {["starting-token"; "max-items"]} ∪ dom (argument_table env).
Proof.
  intros Hpaginate Htoken Hlimit Hname Hc Hcs Hcm.
  assert (_get_all_cli_input_tokens operation = [Some c]) as Htokens.
  { rewrite _get_all_cli_input_tokens_eq. unfold _get_input_tokens.
    by rewrite Htoken, Hlimit; simpl; rewrite Hname. }
  assert (_remove_existing_paging_arguments operation env
          = (mkEnv (<[c := set_undocumented a]> (argument_table env))
                   (registered env), Returned tt)) as Hhide.
  { unfold _remove_existing_paging_arguments.
    by rewrite Htokens, for_each_singleton, (mark_present _ _ _ Hc). }
  eexists. split; [|split; [|split; [|split; [|split]]]].
  - rewrite (unify_after_hiding _ _ _ _ Hpaginate Hhide).
    unfold find_limit_param. rewrite Hlimit, Htokens. reflexivity.
  - simpl. rewrite !lookup_insert_ne by done. apply lookup_insert_eq.
  - intros k Hkc Hks Hkm. simpl. by rewrite !lookup_insert_ne by done.
  - simpl. rewrite lookup_insert_ne by done. apply lookup_insert_eq.
  - apply lookup_insert_eq.
  - simpl. rewrite !dom_insert_L.
    apply elem_of_dom_2 in Hc. apply set_eq. intros k.
    rewrite !elem_of_union, !elem_of_singleton.
    intuition (subst; auto).
Qed.

Lemma unify_single_token_no_limit_witness :
  ∃ table',
    unify_paging_params Example.list_objects Example.event
      (mkEnv Example.table [])
    = (mkEnv table'
         (registered (mkEnv Example.table [])
          ++ [(parsed_args_event Example.event, [Some "marker"])]),
       Returned tt)
    ∧ table' !! "marker"
      = Some (set_undocumented (documented (ServiceArgument Example.marker)))
    ∧ (∀ k, k ≠ "marker" → k ≠ "starting-token" → k ≠ "max-items" →
            table' !! k = argument_table (mkEnv Example.table []) !! k)
    ∧ table' !! "starting-token"
      = Some (page_argument "starting-token" STARTING_TOKEN_HELP
                Example.list_objects "string")
    ∧ table' !! "max-items"
      = Some (page_argument "max-items" MAX_ITEMS_HELP
                Example.list_objects "integer")
    ∧ dom table' = {["starting-token"; "max-items"]}
                   ∪ dom (argument_table (mkEnv Example.table [])).
Proof.
  apply (unify_single_token_no_limit Example.list_objects Example.event
           (mkEnv Example.table []) "marker" "marker"
           (documented (ServiceArgument Example.marker)));
    first [reflexivity | vm_compute; discriminate].
Defined.

(** C3 as stated fails: the operation is paginated, has one input token
    and no limit key, but the argument table has no entry for the token;
    the call raises, nothing is marked and nothing is inserted. *)
Lemma unify_single_token_not_in_table :
  unify_paging_params Example.list_objects Example.event (mkEnv ∅ [])
  = (mkEnv ∅ [], Raised (KeyError (Some "marker"))).
Proof. reflexivity. Qed.

(** The token's own argument is lost when its CLI name is [max-items]: the
    entry is marked, and then replaced by the page argument. *)
Lemma unify_replaces_argument_named_max_items :
  let operation :=
    mkOperation "list-zones" true (mkPagination (OneToken "MaxItems") None)
      [mkParam "MaxItems" "--max-items" "string"] in
  let table : gmap string Argument :=
    <["max-items" := documented (ServiceArgument
                       (mkParam "MaxItems" "--max-items" "string"))]> ∅ in
  unify_paging_params operation Example.event (mkEnv table [])
  = (mkEnv (<["max-items" := page_argument "max-items" MAX_ITEMS_HELP
                               operation "integer"]>
              (<["starting-token" := page_argument "starting-token"
                                       STARTING_TOKEN_HELP operation "string"]>
                 ∅))
       [("operation-args-parsed.svc.list-things", [Some "max-items"])],
     Returned tt).
Proof. vm_compute. reflexivity. Qed.
End UnifyClaims.

(** ** Construction of a page argument *)

(** C4, amended: constructing a page argument with a declared type other
    than [string] and [integer] succeeds and stores the type; the type is
    only looked up when the argument is added to the parser, and that is
    where the unsupported type fails, with a [KeyError] and a parser left
    as it was. *)
Theorem page_argument_type_checked_by_parser name documentation operation
    (parse_type : string) parser :
  parse_type ≠ "string" →
  parse_type ≠ "integer" →
  ∃ self,
    PageArgument.__init__ name documentation operation parse_type
    = Returned self
    ∧ PageArgument.cli_type_name self = parse_type
    ∧ PageArgument.add_to_parser self parser
      = (parser, Raised (KeyError (Some parse_type))).
Proof.
  intros Hs Hi. eexists. split; [reflexivity|]. split; [reflexivity|].
  unfold PageArgument.add_to_parser. simpl.
  by rewrite (type_map_unsupported _ Hs Hi).
Qed.

Lemma page_argument_type_checked_by_parser_witness :
  ∃ self,
    PageArgument.__init__ "max-items" MAX_ITEMS_HELP Example.list_things
      "boolean" = Returned self
    ∧ PageArgument.cli_type_name self = "boolean"
    ∧ PageArgument.add_to_parser self
        (PageArgument.mkParser PageArgument.conflict_error [])
      = (PageArgument.mkParser PageArgument.conflict_error [],
         Raised (KeyError (Some "boolean"))).
Proof.
  apply (page_argument_type_checked_by_parser "max-items" MAX_ITEMS_HELP
           Example.list_things "boolean"
           (PageArgument.mkParser PageArgument.conflict_error []));
    vm_compute; discriminate.
Defined.

(** C4 as stated fails: the constructor returns an argument of the
    declared type [boolean]. *)
Lemma page_argument_boolean_constructed :
  PageArgument.__init__ "max-items" MAX_ITEMS_HELP Example.list_things "boolean"
  = Returned
      (PageArgument.mk "max-items"
         (mkStringParameter "list-things" "max-items" "boolean")
         MAX_ITEMS_HELP "boolean").
Proof. reflexivity. Qed.

(** * Further properties *)

(** ** Strings *)

Section Strings.
Implicit Types (s old new : string) (a : ascii).

Lemma lstrip_hyphens s :
  ∃ n, s = hyphens n +:+ PyStr.lstrip "-" s.
Proof.
  induction s as [|a s [n IH]]; [by exists 0|]. simpl.
  destruct (Ascii.eqb_spec a "-") as [->|Hne].
  - exists (S n).
    change (String "-" s = String "-" (hyphens n +:+ PyStr.lstrip "-" s)).
    congruence.
  - by exists 0.
Qed.

Lemma lstrip_no_hyphen s : starts_with_hyphen (PyStr.lstrip "-" s) = false.
Proof.
  induction s as [|a s IH]; [done|]. simpl.
  destruct (Ascii.eqb a "-") eqn:Ha; [done|]. simpl. by rewrite Ha.
Qed.

Lemma lstrip_id s : starts_with_hyphen s = false → PyStr.lstrip "-" s = s.
Proof. destruct s as [|a s]; [done|]. simpl. by intros ->. Qed.

Lemma prefix_append old s : String.prefix old (old +:+ s) = true.
Proof.
  induction old as [|a old IH]; simpl; [by destruct s|].
  by destruct (ascii_dec a a).
Qed.

Lemma replace_from_skip old new (dropped : string) s :
  PyStr.replace_from old new (String.length dropped) (dropped +:+ s)
  = PyStr.replace_from old new 0 s.
Proof.
  induction dropped as [|a dropped IH]; simpl; [|done].
  by destruct s.
Qed.

Lemma replace_occurrence old new s :
  old ≠ EmptyString →
  PyStr.replace old new (old +:+ s) = new +:+ PyStr.replace old new s.
Proof.
  intros Hold. destruct old as [|a old]; [done|]. unfold PyStr.replace.
  change (String a old +:+ s) with (String a (old +:+ s)).
  cbn [PyStr.replace_from].
  change (String a (old +:+ s)) with (String a old +:+ s).
  rewrite prefix_append. f_equal.
  replace (String.length (String a old) - 1) with (String.length old)
    by (simpl; lia).
  apply replace_from_skip.
Qed.

Lemma replace_hyphen_cons a s :
  PyStr.replace "-" "_" (String a s)
  = String (underscore a) (PyStr.replace "-" "_" s).
Proof.
  unfold PyStr.replace, underscore. cbn [PyStr.replace_from String.prefix].
  destruct (ascii_dec "-" a) as [<-|Hne]; simpl.
  - by destruct s.
  - destruct (Ascii.eqb_spec a "-") as [->|_]; [done|]. by destruct s.
Qed.

Lemma key_form_chars s :
  list_ascii_of_string (key_form s) = underscore <$> list_ascii_of_string s.
Proof.
  unfold key_form. induction s as [|a s IH]; [done|].
  rewrite replace_hyphen_cons. simpl. by rewrite IH.
Qed.
End Strings.

(** X1: the key form of a CLI name has the length of the name and no
    hyphen left, and taking the key form twice changes nothing more. *)
Theorem key_form_hyphen_free (cli_name : string) :
  String.length (key_form cli_name) = String.length cli_name
  ∧ ("-"%char ∉ list_ascii_of_string (key_form cli_name))
  ∧ key_form (key_form cli_name) = key_form cli_name.
Proof.
  split; [|split].
  - unfold key_form. induction cli_name as [|a s IH]; [done|].
    rewrite replace_hyphen_cons. simpl. by rewrite IH.
  - rewrite key_form_chars. intros Hin. apply list_elem_of_fmap in Hin.
    destruct Hin as (a & Ha & _). unfold underscore in Ha.
    destruct (Ascii.eqb_spec a "-") as [Heq|Hne]; [discriminate|congruence].
  - unfold key_form. induction cli_name as [|a s IH]; [done|].
    rewrite !replace_hyphen_cons, IH. f_equal.
    unfold underscore. destruct (Ascii.eqb a "-") eqn:Ha; [done|].
    by rewrite Ha.
Qed.

(** X2: every occurrence of the prefix of the event is replaced, the first
    one included: an event name that starts with
    [building-argument-table.] gives the name that starts with
    [operation-args-parsed.] and goes on with the rest of the name,
    replaced in the same way. *)
Theorem parsed_args_event_prefix (rest : string) :
  parsed_args_event ("building-argument-table." +:+ rest)
  = "operation-args-parsed." +:+ parsed_args_event rest.
Proof. unfold parsed_args_event. by apply replace_occurrence. Qed.

(** ** Names of parameters *)

Section Names.
Implicit Types (param_objects : list Param) (token_name : string).

(** X3: the name lookup returns [None] exactly when no parameter has the
    name. *)
Theorem get_cli_name_none_iff param_objects token_name :
  _get_cli_name param_objects token_name = None
  ↔ Forall (λ param, param_name param ≠ token_name) param_objects.
Proof.
  split; [|apply _get_cli_name_unmatched].
  induction param_objects as [|param rest IH]; [by constructor|]. simpl.
  destruct (String.eqb_spec (param_name param) token_name) as [|Hne]; [done|].
  intros H. constructor; [done|by apply IH].
Qed.

(** X4: a CLI name that the lookup returns belongs to the first parameter
    of that name: it is the CLI name of this parameter without its leading
    hyphens, all of them, so it never starts with a hyphen. *)
Theorem get_cli_name_some param_objects token_name (c : string) :
  _get_cli_name param_objects token_name = Some c →
  ∃ param n,
    List.find (λ param, String.eqb (param_name param) token_name)
              param_objects = Some param
    ∧ param ∈ param_objects
    ∧ param_name param = token_name
    ∧ param_cli_name param = hyphens n +:+ c
    ∧ starts_with_hyphen c = false.
Proof.
  rewrite _get_cli_name_find.
  destruct (List.find _ param_objects) as [param|] eqn:Hfind; [|done].
  simpl. intros [= <-].
  destruct (lstrip_hyphens (param_cli_name param)) as [n Hn].
  apply find_some in Hfind as [Hin Hname].
  exists param, n. split; [done|]. split; [by apply list_elem_of_In|].
  split; [by apply String.eqb_eq|]. split; [done|apply lstrip_no_hyphen].
Qed.

Lemma get_cli_name_some_witness :
  ∃ param n,
    List.find (λ param, String.eqb (param_name param) "max_results")
              marker_params = Some param
    ∧ param ∈ marker_params
    ∧ param_name param = "max_results"
    ∧ param_cli_name param = hyphens n +:+ "max-results"
    ∧ starts_with_hyphen "max-results" = false.
Proof. apply (get_cli_name_some marker_params "max_results"). reflexivity. Defined.

(** X5: a page argument whose name does not start with a hyphen gets its
    name back from its CLI name by the stripping that the name lookup
    applies: the option [--name] is found under the key [name]. *)
Theorem page_argument_cli_name_strips_to_name (self : PageArgument.t) :
  starts_with_hyphen (PageArgument._name self) = false →
  PyStr.lstrip "-" (PageArgument.cli_name self) = PageArgument._name self.
Proof. intros H. unfold PageArgument.cli_name. simpl. by apply lstrip_id. Qed.

Lemma page_argument_cli_name_strips_to_name_witness :
  PyStr.lstrip "-" (PageArgument.cli_name
                      (max_items_argument Example.list_objects))
  = "max-items".
Proof.
  apply (page_argument_cli_name_strips_to_name
           (max_items_argument Example.list_objects)).
  reflexivity.
Defined.
End Names.

(** ** The loop that hides the paging arguments *)

Section Marking.
Implicit Types (env : Env) (table : gmap string Argument).
Implicit Types (cli_names : list (option string)) (k c : string).

Lemma insert_set_undocumented table c a :
  table !! c = Some a →
  <[c := set_undocumented a]> table = alter set_undocumented c table.
Proof.
  intros Hc. apply map_eq. intros k. rewrite lookup_insert, lookup_alter.
  destruct (decide (c = k)) as [<-|]; [by rewrite Hc|done].
Qed.

Lemma in_table_alter table c (f : Argument → Argument) cli_name :
  in_table (alter f c table) cli_name = in_table table cli_name.
Proof.
  destruct cli_name as [k|]; [|done]. simpl. rewrite lookup_alter.
  destruct (decide (c = k)) as [<-|]; [|done]. by destruct (table !! c).
Qed.

Lemma forallb_in_table_alter table c (f : Argument → Argument) cli_names :
  forallb (in_table (alter f c table)) cli_names
  = forallb (in_table table) cli_names.
Proof.
  induction cli_names as [|o rest IH]; [done|]. simpl.
  by rewrite in_table_alter, IH.
Qed.

Lemma lookup_marked_in cli_names table k :
  Some k ∈ cli_names →
  marked cli_names table !! k = set_undocumented <$> table !! k.
Proof.
  unfold marked. revert table.
  induction cli_names as [|cli_name rest IH] using rev_ind; intros table Hin.
  - by apply elem_of_nil in Hin.
  - rewrite foldl_app. simpl. apply elem_of_app in Hin as [Hin|Hin].
    + destruct cli_name as [c|]; [|by apply IH]. rewrite lookup_alter.
      destruct (decide (c = k)) as [<-|]; rewrite (IH _ Hin); [|done].
      by destruct (table !! c).
    + apply list_elem_of_singleton in Hin as <-. rewrite lookup_alter.
      destruct (decide (k = k)); [|done].
      destruct (decide (Some k ∈ rest)) as [Hrest|Hrest].
      * rewrite (IH _ Hrest). by destruct (table !! k).
      * clear IH. revert table.
        induction rest as [|o rest IH'] using rev_ind; intros table; [done|].
        rewrite foldl_app. simpl. apply not_elem_of_app in Hrest as [H1 H2].
        destruct o as [c|]; [|by apply IH'].
        rewrite lookup_alter_ne; [by apply IH'|].
        intros ->. apply H2, list_elem_of_singleton. done.
Qed.

Lemma lookup_marked_out cli_names table k :
  Some k ∉ cli_names → marked cli_names table !! k = table !! k.
Proof.
  unfold marked. revert table.
  induction cli_names as [|cli_name rest IH]; intros table Hout; [done|].
  apply not_elem_of_cons in Hout as [Hne Hout]. simpl.
  rewrite (IH _ Hout). destruct cli_name as [c|]; [|done].
  apply lookup_alter_ne. congruence.
Qed.

Lemma for_each_mark_all cli_names env :
  forallb (in_table (argument_table env)) cli_names = true →
  for_each cli_names mark env
  = (mkEnv (marked cli_names (argument_table env)) (registered env),
     Returned tt).
Proof.
  revert env. induction cli_names as [|cli_name rest IH]; intros env Hall.
  - by destruct env.
  - simpl in Hall. apply andb_prop in Hall as [Hhere Hrest].
    destruct cli_name as [c|]; [|done]. simpl in Hhere.
    destruct (argument_table env !! c) as [a|] eqn:Hc; [|done].
    rewrite for_each_cons, (mark_present _ _ _ Hc), IH; simpl.
    + by rewrite (insert_set_undocumented _ _ _ Hc).
    + by rewrite (insert_set_undocumented _ _ _ Hc), forallb_in_table_alter.
Qed.

Lemma for_each_mark_first_missing cli_names1 cli_name cli_names2 env :
  forallb (in_table (argument_table env)) cli_names1 = true →
  in_table (argument_table env) cli_name = false →
  for_each (cli_names1 ++ cli_name :: cli_names2) mark env
  = (mkEnv (marked cli_names1 (argument_table env)) (registered env),
     Raised (KeyError cli_name)).
Proof.
  revert env. induction cli_names1 as [|o rest IH]; intros env Hall Hmiss.
  - change ([] ++ cli_name :: cli_names2) with (cli_name :: cli_names2).
    rewrite for_each_cons. destruct cli_name as [c|]; [|by destruct env].
    simpl in Hmiss. destruct (argument_table env !! c) eqn:Hc; [done|].
    rewrite (mark_missing _ _ Hc). by destruct env.
  - simpl in Hall. apply andb_prop in Hall as [Hhere Hrest].
    destruct o as [c|]; [|done]. simpl in Hhere.
    destruct (argument_table env !! c) as [a|] eqn:Hc; [|done].
    change ((Some c :: rest) ++ cli_name :: cli_names2)
      with (Some c :: (rest ++ cli_name :: cli_names2)).
    rewrite for_each_cons, (mark_present _ _ _ Hc), IH; simpl.
    + by rewrite (insert_set_undocumented _ _ _ Hc).
    + by rewrite (insert_set_undocumented _ _ _ Hc), forallb_in_table_alter.
    + by rewrite (insert_set_undocumented _ _ _ Hc), in_table_alter.
Qed.

(** A list with an element that fails the test splits at the first one. *)
Lemma forallb_first_false {A} (P : A → bool) (l : list A) :
  forallb P l = false →
  ∃ l1 x l2, l = l1 ++ x :: l2 ∧ forallb P l1 = true ∧ P x = false.
Proof.
  induction l as [|x l IH]; [done|]. simpl.
  destruct (P x) eqn:Hx.
  - intros (l1 & y & l2 & -> & H1 & Hy)%IH.
    exists (x :: l1), y, l2. simpl. by rewrite Hx.
  - intros _. by exists [], x, l.
Qed.
End Marking.

(** ** Every way the rewrite of the argument table can end *)

Section Outcomes.
Implicit Types (env : Env) (operation : Operation) (event_name : string).

Lemma supported_type_cases (parse_type : string) :
  supported_type parse_type = true →
  parse_type = "string" ∨ parse_type = "integer".
Proof.
  unfold supported_type, PageArgument.type_map. rewrite lookup_insert.
  destruct (decide ("integer" = parse_type)) as [<-|_]; [by right|].
  rewrite lookup_insert.
  destruct (decide ("string" = parse_type)) as [<-|_]; [by left|].
  by rewrite lookup_empty.
Qed.

Lemma limit_type_of_supported operation :
  limit_type_supported operation = true →
  (limit_type (find_limit_param operation) = "string"
   ∨ limit_type (find_limit_param operation) = "integer")
  ∧ ∀ param, find_limit_param operation = Some param →
             limit_type (find_limit_param operation) = param_type param.
Proof.
  unfold limit_type_supported.
  destruct (find_limit_param operation) as [param|]; [|by split; [right|]].
  intros [Ht|Ht]%supported_type_cases; simpl; rewrite Ht; simpl.
  - split; [by left|]. by intros ? [= <-].
  - split; [by right|]. by intros ? [= <-].
Qed.

Lemma unify_key_error_eq operation event_name env
    (before : list (option string)) (missing : option string)
    (after : list (option string)) :
  can_paginate operation = true →
  _get_all_cli_input_tokens operation = before ++ missing :: after →
  forallb (in_table (argument_table env)) before = true →
  in_table (argument_table env) missing = false →
  unify_paging_params operation event_name env
  = (mkEnv (marked before (argument_table env)) (registered env),
     Raised (KeyError missing)).
Proof.
  intros Hpaginate Htokens Hbefore Hmissing.
  unfold unify_paging_params, _remove_existing_paging_arguments.
  rewrite Hpaginate, Htokens. simpl.
  apply bind_raised. by apply for_each_mark_first_missing.
Qed.

Lemma unify_returns_eq operation event_name env :
  can_paginate operation = true →
  forallb (in_table (argument_table env))
          (_get_all_cli_input_tokens operation) = true →
  limit_type_supported operation = true →
  unify_paging_params operation event_name env
  = (mkEnv
       (<["max-items" :=
            page_argument "max-items" MAX_ITEMS_HELP operation
              (limit_type (find_limit_param operation))]>
          (<["starting-token" :=
               page_argument "starting-token" STARTING_TOKEN_HELP operation
                 "string"]>
             (marked (_get_all_cli_input_tokens operation)
                     (argument_table env))))
       (registered env ++ [(parsed_args_event event_name,
                            _get_all_cli_input_tokens operation)]),
     Returned tt).
Proof.
  intros Hpaginate Hall Hlimit.
  rewrite (unify_after_hiding _ _ _ _ Hpaginate
             (for_each_mark_all _ _ Hall)). simpl.
  unfold limit_type_supported, supported_type in Hlimit.
  destruct (find_limit_param operation) as [param|]; [|done].
  by destruct (PageArgument.type_map !! param_type param).
Qed.

Lemma unify_type_error_eq operation event_name env :
  can_paginate operation = true →
  forallb (in_table (argument_table env))
          (_get_all_cli_input_tokens operation) = true →
  limit_type_supported operation = false →
  ∃ param,
    find_limit_param operation = Some param
    ∧ unify_paging_params operation event_name env
      = (mkEnv
           (<["starting-token" :=
                page_argument "starting-token" STARTING_TOKEN_HELP operation
                  "string"]>
              (marked (_get_all_cli_input_tokens operation)
                      (argument_table env)))
           (registered env ++ [(parsed_args_event event_name,
                                _get_all_cli_input_tokens operation)]),
         Raised (TypeError (unsupported_message (limit_type (Some param))
                              (op_name operation) (param_name param)))).
Proof.
  intros Hpaginate Hall Hlimit.
  rewrite (unify_after_hiding _ _ _ _ Hpaginate
             (for_each_mark_all _ _ Hall)). simpl.
  unfold limit_type_supported, supported_type in Hlimit.
  destruct (find_limit_param operation) as [param|]; [|done].
  exists param. split; [done|].
  by destruct (PageArgument.type_map !! param_type param).
Qed.

(** X6: when every name the configuration yields is a key of the argument
    table, hiding returns; it marks the entry of each of these names,
    leaves every other entry as it was, adds and drops no key and registers
    nothing. *)
Theorem hiding_marks_the_paging_arguments operation env :
  forallb (in_table (argument_table env))
          (_get_all_cli_input_tokens operation) = true →
  ∃ table',
    _remove_existing_paging_arguments operation env
    = (mkEnv table' (registered env), Returned tt)
    ∧ (∀ k, Some k ∈ _get_all_cli_input_tokens operation →
            table' !! k = set_undocumented <$> argument_table env !! k)
    ∧ (∀ k, Some k ∉ _get_all_cli_input_tokens operation →
            table' !! k = argument_table env !! k).
Proof.
  intros Hall. eexists. split; [by apply for_each_mark_all|]. split.
  - intros k Hk. by apply lookup_marked_in.
  - intros k Hk. by apply lookup_marked_out.
Qed.

Lemma hiding_marks_the_paging_arguments_witness :
  ∃ table',
    _remove_existing_paging_arguments Paged.list_items (mkEnv Paged.table [])
    = (mkEnv table' [], Returned tt)
    ∧ (∀ k, Some k ∈ _get_all_cli_input_tokens Paged.list_items →
            table' !! k = set_undocumented <$> Paged.table !! k)
    ∧ (∀ k, Some k ∉ _get_all_cli_input_tokens Paged.list_items →
            table' !! k = Paged.table !! k).
Proof.
  apply (hiding_marks_the_paging_arguments Paged.list_items
           (mkEnv Paged.table [])).
  reflexivity.
Defined.

(** X7: for a paginated operation, the first yielded name that is no key
    of the argument table ([None] included) ends the call with a [KeyError]
    for that name.  The entries of the names before it are marked by then
    and stay so; nothing else has changed: no handler, no page argument. *)
Theorem unify_key_error_at_first_missing_name operation event_name env
    (before : list (option string)) (missing : option string)
    (after : list (option string)) :
  can_paginate operation = true →
  _get_all_cli_input_tokens operation = before ++ missing :: after →
  forallb (in_table (argument_table env)) before = true →
  in_table (argument_table env) missing = false →
  ∃ table',
    unify_paging_params operation event_name env
    = (mkEnv table' (registered env), Raised (KeyError missing))
    ∧ (∀ k, Some k ∈ before →
            table' !! k = set_undocumented <$> argument_table env !! k)
    ∧ (∀ k, Some k ∉ before → table' !! k = argument_table env !! k).
Proof.
  intros Hpaginate Htokens Hbefore Hmissing. eexists. split; [|split].
  - by eapply unify_key_error_eq.
  - intros k Hk. by apply lookup_marked_in.
  - intros k Hk. by apply lookup_marked_out.
Qed.

Lemma unify_key_error_at_first_missing_name_witness :
  ∃ table',
    unify_paging_params Paged.list_items Paged.event
      (mkEnv (delete "marker2" Paged.table) [])
    = (mkEnv table' [], Raised (KeyError (Some "marker2")))
    ∧ (∀ k, Some k ∈ [Some "marker"] →
            table' !! k = set_undocumented <$> delete "marker2" Paged.table !! k)
    ∧ (∀ k, Some k ∉ [Some "marker"] →
            table' !! k = delete "marker2" Paged.table !! k).
Proof.
  exact (unify_key_error_at_first_missing_name Paged.list_items Paged.event
           (mkEnv (delete "marker2" Paged.table) [])
           [Some "marker"] (Some "marker2") [Some "max-results"]
           eq_refl eq_refl eq_refl eq_refl).
Defined.

(** X8: for a paginated operation whose yielded names are all keys of the
    argument table and whose limit parameter, if it has one, is declared as
    [string] or [integer], the call returns.  The paging arguments are
    marked, the handler is registered last, for the parsed-arguments event
    and with the yielded names, [starting-token] is a string argument and
    [max-items] has the declared type of the limit parameter, or [integer]
    without one. *)
Theorem unify_returns_with_limit_type operation event_name env :
  can_paginate operation = true →
  forallb (in_table (argument_table env))
          (_get_all_cli_input_tokens operation) = true →
  limit_type_supported operation = true →
  unify_paging_params operation event_name env
  = (mkEnv
       (<["max-items" :=
            page_argument "max-items" MAX_ITEMS_HELP operation
              (limit_type (find_limit_param operation))]>
          (<["starting-token" :=
               page_argument "starting-token" STARTING_TOKEN_HELP operation
                 "string"]>
             (marked (_get_all_cli_input_tokens operation)
                     (argument_table env))))
       (registered env ++ [(parsed_args_event event_name,
                            _get_all_cli_input_tokens operation)]),
     Returned tt)
  ∧ (limit_type (find_limit_param operation) = "string"
     ∨ limit_type (find_limit_param operation) = "integer")
  ∧ (∀ param, find_limit_param operation = Some param →
              limit_type (find_limit_param operation) = param_type param)
  ∧ (find_limit_param operation = None →
     limit_type (find_limit_param operation) = "integer").
Proof.
  intros Hpaginate Hall Hlimit.
  destruct (limit_type_of_supported _ Hlimit) as [Hcases Hparam].
  split; [by apply unify_returns_eq|].
  split; [done|split; [done|by intros ->]].
Qed.

Lemma unify_returns_with_limit_type_witness :
  (unify_paging_params Paged.list_items Paged.event (mkEnv Paged.table [])).2
  = Returned tt
  ∧ argument_table
      (unify_paging_params Paged.list_items Paged.event
         (mkEnv Paged.table [])).1 !! "max-items"
    = Some (page_argument "max-items" MAX_ITEMS_HELP Paged.list_items
              "integer").
Proof.
  destruct (unify_returns_with_limit_type Paged.list_items Paged.event
              (mkEnv Paged.table []) eq_refl eq_refl eq_refl) as [-> _].
  split; reflexivity.
Defined.
(** X9: the call ends in one of four ways and in no other.  It returns
    when the operation is not paginated, or when every yielded name is a key
    of the table and the limit parameter, if any, has a supported type; it
    raises a [KeyError] for a yielded name that is no key of the table; it
    raises a [TypeError] when all names are keys but the type of the limit
    parameter is not supported; it never raises an [AttributeError], nor
    the [ArgumentError] of a parser. *)
Theorem unify_outcomes operation event_name env :
  match (unify_paging_params operation event_name env).2 with
  | Returned _ =>
      can_paginate operation = false
      ∨ (forallb (in_table (argument_table env))
                 (_get_all_cli_input_tokens operation) = true
         ∧ limit_type_supported operation = true)
  | Raised (KeyError missing) =>
      can_paginate operation = true
      ∧ missing ∈ _get_all_cli_input_tokens operation
      ∧ in_table (argument_table env) missing = false
  | Raised (TypeError _) =>
      can_paginate operation = true
      ∧ forallb (in_table (argument_table env))
                (_get_all_cli_input_tokens operation) = true
      ∧ limit_type_supported operation = false
  | Raised (AttributeError _) => False
  | Raised (ArgumentError _) => False
  end.
Proof.
  destruct (can_paginate operation) eqn:Hpaginate.
  - destruct (forallb (in_table (argument_table env))
                (_get_all_cli_input_tokens operation)) eqn:Hall.
    + destruct (limit_type_supported operation) eqn:Hlimit.
      * rewrite (unify_returns_eq _ event_name _ Hpaginate Hall Hlimit).
        simpl. by right.
      * destruct (unify_type_error_eq _ event_name _ Hpaginate Hall Hlimit)
          as (param & _ & ->). by simpl.
    + destruct (forallb_first_false _ _ Hall)
        as (before & missing & after & Htokens & Hbefore & Hmissing).
      rewrite (unify_key_error_eq _ event_name _ _ _ _ Hpaginate Htokens
                 Hbefore Hmissing). simpl.
      split; [done|]. split; [|done].
      rewrite Htokens. apply elem_of_app. right. apply elem_of_cons. by left.
  - unfold unify_paging_params. rewrite Hpaginate. simpl. by left.
Qed.

Lemma descriptor_marked cli_names (table : gmap string Argument) k :
  descriptor <$> marked cli_names table !! k = descriptor <$> table !! k.
Proof.
  destruct (decide (Some k ∈ cli_names)) as [Hin|Hout].
  - rewrite (lookup_marked_in _ _ _ Hin). by destruct (table !! k).
  - by rewrite (lookup_marked_out _ _ _ Hout).
Qed.

Lemma hidden_marked cli_names (table : gmap string Argument) k a :
  table !! k = Some a → _UNDOCUMENTED a = true →
  ∃ a', marked cli_names table !! k = Some a' ∧ _UNDOCUMENTED a' = true.
Proof.
  intros Hk Ha. destruct (decide (Some k ∈ cli_names)) as [Hin|Hout].
  - rewrite (lookup_marked_in _ _ _ Hin), Hk. by eexists.
  - rewrite (lookup_marked_out _ _ _ Hout), Hk. by eexists.
Qed.

(** The table the call leaves: the table it was given with some entries
    marked, to which [starting-token], or [starting-token] and then
    [max-items], may have been assigned. *)
Lemma unify_table_shape operation event_name env :
  ∃ cli_names,
    let after := argument_table
                   (unify_paging_params operation event_name env).1 in
    let hidden := marked cli_names (argument_table env) in
    after = hidden
    ∨ (∃ start, after = <["starting-token" := start]> hidden)
    ∨ (∃ start max,
         after = <["max-items" := max]> (<["starting-token" := start]> hidden)).
Proof.
  destruct (can_paginate operation) eqn:Hpaginate.
  - destruct (forallb (in_table (argument_table env))
                (_get_all_cli_input_tokens operation)) eqn:Hall.
    + exists (_get_all_cli_input_tokens operation).
      destruct (limit_type_supported operation) eqn:Hlimit.
      * rewrite (unify_returns_eq _ event_name _ Hpaginate Hall Hlimit).
        simpl. right. right. by do 2 eexists.
      * destruct (unify_type_error_eq _ event_name _ Hpaginate Hall Hlimit)
          as (param & _ & ->). simpl. right. left. by eexists.
    + destruct (forallb_first_false _ _ Hall)
        as (before & missing & after & Htokens & Hbefore & Hmissing).
      exists before.
      rewrite (unify_key_error_eq _ event_name _ _ _ _ Hpaginate Htokens
                 Hbefore Hmissing). simpl. by left.
  - exists []. unfold unify_paging_params. rewrite Hpaginate. simpl. by left.
Qed.

(** X10: however the call ends, it drops no key of the argument table and
    adds none but [starting-token] and [max-items]; under every other key
    the entry describes the argument it described before, and an entry that
    was marked as undocumented is still marked. *)
Theorem unify_keeps_the_other_entries operation event_name env :
  dom (argument_table env)
    ⊆ dom (argument_table (unify_paging_params operation event_name env).1)
  ∧ dom (argument_table (unify_paging_params operation event_name env).1)
      ⊆ dom (argument_table env) ∪ {["starting-token"; "max-items"]}
  ∧ ∀ k, k ≠ "starting-token" → k ≠ "max-items" →
      descriptor
        <$> argument_table (unify_paging_params operation event_name env).1
            !! k
      = descriptor <$> argument_table env !! k
      ∧ (hidden_in env k →
         hidden_in (unify_paging_params operation event_name env).1 k).
Proof.
  destruct (unify_table_shape operation event_name env) as [cli_names Hshape].
  unfold hidden_in. simpl in Hshape.
  assert (∀ k, is_Some (marked cli_names (argument_table env) !! k)
               ↔ is_Some (argument_table env !! k)) as Hdom.
  { intros k. rewrite <- !(fmap_is_Some descriptor).
    by rewrite descriptor_marked. }
  destruct Hshape as [->|[[start ->]|(start & max & ->)]].
  - split; [|split].
    + intros k. rewrite !elem_of_dom. apply Hdom.
    + intros k. rewrite elem_of_union, !elem_of_dom. left. by apply Hdom.
    + intros k _ _. split; [apply descriptor_marked|].
      intros (a & Hk & Ha). by eapply hidden_marked.
  - split; [|split].
    + intros k. rewrite dom_insert, elem_of_union, !elem_of_dom.
      right. by apply Hdom.
    + intros k. rewrite dom_insert, !elem_of_union, !elem_of_singleton,
        !elem_of_dom. intros [->|Hk]; [by right; left|left; by apply Hdom].
    + intros k Hks _. rewrite lookup_insert_ne by done.
      split; [apply descriptor_marked|].
      intros (a & Hk & Ha). by eapply hidden_marked.
  - split; [|split].
    + intros k. rewrite !dom_insert, !elem_of_union, !elem_of_dom.
      right. right. by apply Hdom.
    + intros k. rewrite !dom_insert, !elem_of_union, !elem_of_singleton,
        !elem_of_dom.
      intros [->|[->|Hk]]; [by right; right|by right; left|left; by apply Hdom].
    + intros k Hks Hkm. rewrite !lookup_insert_ne by done.
      split; [apply descriptor_marked|].
      intros (a & Hk & Ha). by eapply hidden_marked.
Qed.

(** X11: a limit parameter whose declared type is the empty string is not
    supported, and the message of the [TypeError] names the type [integer]:
    the default has replaced the empty type by the time the message is
    built. *)
Theorem unify_empty_limit_type_reported_as_integer operation event_name env
    (param : Param) :
  can_paginate operation = true →
  forallb (in_table (argument_table env))
          (_get_all_cli_input_tokens operation) = true →
  find_limit_param operation = Some param →
  param_type param = "" →
  (unify_paging_params operation event_name env).2
  = Raised (TypeError (unsupported_message "integer" (op_name operation)
                         (param_name param))).
Proof.
  intros Hpaginate Hall Hparam Htype.
  assert (limit_type_supported operation = false) as Hlimit.
  { unfold limit_type_supported. by rewrite Hparam, Htype. }
  destruct (unify_type_error_eq _ event_name _ Hpaginate Hall Hlimit)
    as (param' & Hparam' & ->).
  rewrite Hparam in Hparam'. injection Hparam' as <-.
  simpl. by rewrite Htype.
Qed.

Lemma unify_empty_limit_type_reported_as_integer_witness :
  (unify_paging_params
     (mkOperation "list-items" true
        (mkPagination (OneToken "marker") (Some "max_results"))
        [mkParam "marker" "--marker" "string";
         mkParam "max_results" "--max-results" ""])
     Paged.event (mkEnv Paged.table [])).2
  = Raised (TypeError "Unsupported pagination type integer for operation list-items and parameter max_results").
Proof.
  exact (unify_empty_limit_type_reported_as_integer
           (mkOperation "list-items" true
              (mkPagination (OneToken "marker") (Some "max_results"))
              [mkParam "marker" "--marker" "string";
               mkParam "max_results" "--max-results" ""])
           Paged.event (mkEnv Paged.table [])
           (mkParam "max_results" "--max-results" "")
           eq_refl eq_refl eq_refl eq_refl).
Defined.
End Outcomes.

(** ** The handler, further *)

Section HandlerOutcomes.
Implicit Types (parsed_args : gmap string (option Value)) (paginate : bool).
Implicit Types (input_tokens : list (option string)).

(** X12: the handler never switches pagination on: whatever the names and
    the namespace, and whether it returns or raises, it leaves the flag
    either false or as it found it. *)
Theorem check_never_enables input_tokens parsed_args paginate :
  (check_should_enable_pagination input_tokens parsed_args paginate).1 = false
  ∨ (check_should_enable_pagination input_tokens parsed_args paginate).1
    = paginate.
Proof.
  destruct (check_shape input_tokens parsed_args) as (cleared & o & H).
  rewrite H. simpl. destruct cleared; [by left|by right].
Qed.

(** X13: the first hidden name for which the namespace has no attribute
    ends the handler with an [AttributeError] for the key form of that
    name.  The names before it have been looked at by then, so the flag is
    already false if one of them was supplied; the names after it are not
    looked at. *)
Theorem check_raises_at_first_missing_attribute
    (before : list string) (missing : string) (after : list string)
    parsed_args paginate :
  forallb (has_attribute parsed_args) before = true →
  has_attribute parsed_args missing = false →
  check_should_enable_pagination (Some <$> (before ++ missing :: after))
    parsed_args paginate
  = (if existsb (supplied parsed_args) before then false else paginate,
     Raised (AttributeError (key_form missing))).
Proof.
  unfold check_should_enable_pagination. revert paginate.
  induction before as [|cli_name rest IH]; intros paginate Hattr Hmissing.
  - change (Some <$> ([] ++ missing :: after))
      with (Some missing :: (Some <$> after)).
    by rewrite for_each_cons, (check_token_missing _ _ _ Hmissing).
  - simpl in Hattr. apply andb_prop in Hattr as [Hhere Hrest].
    change (Some <$> ((cli_name :: rest) ++ missing :: after))
      with (Some cli_name :: (Some <$> (rest ++ missing :: after))).
    rewrite for_each_cons, (check_token_defined _ _ _ Hhere).
    rewrite (IH _ Hrest Hmissing). simpl.
    by destruct (supplied parsed_args cli_name), (existsb _ rest).
Qed.

Lemma check_raises_at_first_missing_attribute_witness :
  check_should_enable_pagination
    [Some "max-results"; Some "marker"; Some "marker2"]
    (<["max_results" := Some (VInt 10)]> ∅) true
  = (false, Raised (AttributeError "marker")).
Proof.
  exact (check_raises_at_first_missing_attribute
           ["max-results"] "marker" ["marker2"]
           (<["max_results" := Some (VInt 10)]> ∅) true eq_refl eq_refl).
Defined.

Lemma in_table_strings_of (table : gmap string Argument) input_tokens :
  forallb (in_table table) input_tokens = true →
  input_tokens = Some <$> strings_of input_tokens.
Proof.
  unfold strings_of.
  induction input_tokens as [|token rest IH]; [done|]. simpl.
  intros [Hhere Hrest]%andb_prop. destruct token as [c|]; [|done].
  simpl. f_equal. by apply IH.
Qed.

(** X14: the handler that a returning call registers fits the table the
    call was given.  For a paginated operation whose yielded names are all
    keys of the table and whose limit type is supported, the last handler
    registered is the one for the parsed-arguments event with the yielded
    names; run on a namespace that has an attribute for each of these names,
    it returns, and it clears the flag exactly when one of the hidden
    arguments was supplied. *)
Theorem unify_then_check operation (event_name : string) (env : Env)
    parsed_args paginate :
  can_paginate operation = true →
  forallb (in_table (argument_table env))
          (_get_all_cli_input_tokens operation) = true →
  limit_type_supported operation = true →
  forallb (has_attribute parsed_args)
          (strings_of (_get_all_cli_input_tokens operation)) = true →
  ∃ input_tokens,
    last (registered (unify_paging_params operation event_name env).1)
    = Some (parsed_args_event event_name, input_tokens)
    ∧ (None ∉ input_tokens)
    ∧ check_should_enable_pagination input_tokens parsed_args paginate
      = (if existsb (supplied parsed_args)
              (strings_of (_get_all_cli_input_tokens operation))
         then false else paginate,
         Returned tt).
Proof.
  intros Hpaginate Hall Hlimit Hattr.
  exists (_get_all_cli_input_tokens operation).
  rewrite (unify_returns_eq _ event_name _ Hpaginate Hall Hlimit). simpl.
  split; [apply last_snoc|].
  rewrite (in_table_strings_of _ _ Hall) at 1 2. split.
  - intros (c & Hc & _)%list_elem_of_fmap. discriminate.
  - by apply check_defined.
Qed.

Lemma unify_then_check_witness :
  ∃ input_tokens,
    last (registered (unify_paging_params Paged.list_items Paged.event
                        (mkEnv Paged.table [])).1)
    = Some (parsed_args_event Paged.event, input_tokens)
    ∧ (None ∉ input_tokens)
    ∧ check_should_enable_pagination input_tokens Paged.parsed_args true
      = (if existsb (supplied Paged.parsed_args)
              (strings_of (_get_all_cli_input_tokens Paged.list_items))
         then false else true,
         Returned tt).
Proof.
  exact (unify_then_check Paged.list_items Paged.event (mkEnv Paged.table [])
           Paged.parsed_args true eq_refl eq_refl eq_refl eq_refl).
Defined.
End HandlerOutcomes.

(** ** Page arguments, further *)

Section PageArguments.
Import PageArgument.
Implicit Types (self : PageArgument.t) (parser : PageArgument.Parser).
Implicit Types (parameters : gmap string Value).

Lemma add_to_parser_new_flag self parser conv :
  type_map !! _parse_type self = Some conv →
  holds_flag parser (cli_name self) = false →
  add_to_parser self parser
  = (mkParser (conflict_handler parser)
       (options parser ++ [mkOption (cli_name self) (py_name self) conv]),
     Returned tt).
Proof.
  unfold add_to_parser, add_argument. intros -> Hflag. by rewrite Hflag.
Qed.

(** X16: the two page arguments that a returning call has put in the
    argument table can be added to every parser that does not hold their
    flags yet: [starting-token] as a string option, [max-items] as a string
    or an integer option, the type of the limit parameter having been
    checked before.  The option is added last, the options added earlier
    and the conflict handler are kept. *)
Theorem unify_page_arguments_fit_the_parser operation (event_name : string)
    (env : Env) parser :
  can_paginate operation = true →
  forallb (in_table (argument_table env))
          (_get_all_cli_input_tokens operation) = true →
  limit_type_supported operation = true →
  holds_flag parser "--starting-token" = false →
  holds_flag parser "--max-items" = false →
  ∃ start max conv,
    argument_table (unify_paging_params operation event_name env).1
      !! "starting-token" = Some (documented (PagingArgument start))
    ∧ argument_table (unify_paging_params operation event_name env).1
        !! "max-items" = Some (documented (PagingArgument max))
    ∧ add_to_parser start parser
      = (mkParser (conflict_handler parser)
           (options parser
            ++ [mkOption "--starting-token" (py_name start) py_str]),
         Returned tt)
    ∧ add_to_parser max parser
      = (mkParser (conflict_handler parser)
           (options parser ++ [mkOption "--max-items" (py_name max) conv]),
         Returned tt)
    ∧ (_parse_type max = "string" ∧ conv = py_str
       ∨ _parse_type max = "integer" ∧ conv = py_int).
Proof.
  intros Hpaginate Hall Hlimit Hstart Hmax.
  rewrite (unify_returns_eq _ event_name _ Hpaginate Hall Hlimit). simpl.
  destruct (limit_type_of_supported _ Hlimit) as [Hcases _].
  destruct Hcases as [Ht|Ht]; do 2 eexists; [exists py_str|exists py_int];
    (split; [by rewrite lookup_insert_ne, lookup_insert_eq|]);
    (split; [by rewrite lookup_insert_eq|]);
    (split; [by apply add_to_parser_new_flag|]);
    (split; [apply add_to_parser_new_flag; [simpl; by rewrite Ht|done]|]);
    simpl; [by left|by right].
Qed.

Lemma unify_page_arguments_fit_the_parser_witness :
  ∃ start max conv,
    argument_table (unify_paging_params Paged.list_items Paged.event
                      (mkEnv Paged.table [])).1
      !! "starting-token" = Some (documented (PagingArgument start))
    ∧ argument_table (unify_paging_params Paged.list_items Paged.event
                        (mkEnv Paged.table [])).1
        !! "max-items" = Some (documented (PagingArgument max))
    ∧ add_to_parser start Paged.parser
      = (mkParser (conflict_handler Paged.parser)
           (options Paged.parser
            ++ [mkOption "--starting-token" (py_name start) py_str]),
         Returned tt)
    ∧ add_to_parser max Paged.parser
      = (mkParser (conflict_handler Paged.parser)
           (options Paged.parser
            ++ [mkOption "--max-items" (py_name max) conv]),
         Returned tt)
    ∧ (_parse_type max = "string" ∧ conv = py_str
       ∨ _parse_type max = "integer" ∧ conv = py_int).
Proof.
  exact (unify_page_arguments_fit_the_parser Paged.list_items Paged.event
           (mkEnv Paged.table []) Paged.parser
           eq_refl eq_refl eq_refl eq_refl eq_refl).
Defined.

(** X17: two page arguments with different keys write to the parameters
    independently: the parameters are the same whichever of the two is
    applied first, with or without values. *)
Theorem add_to_params_commute (self other : PageArgument.t) parameters
    (value value' : option Value) :
  py_name self ≠ py_name other →
  (add_to_params other value' (add_to_params self value parameters).1).1
  = (add_to_params self value (add_to_params other value' parameters).1).1.
Proof.
  intros Hne. destruct value as [v|], value' as [v'|]; simpl; [|done..].
  by apply insert_insert_ne.
Qed.

Lemma add_to_params_commute_witness :
  (add_to_params (max_items_argument Paged.list_items) (Some (VInt 42))
     (add_to_params
        (mk "starting-token"
           (mkStringParameter "list-items" "starting-token" "string")
           STARTING_TOKEN_HELP "string")
        (Some (VStr "abc")) ∅).1).1
  = (add_to_params
       (mk "starting-token"
          (mkStringParameter "list-items" "starting-token" "string")
          STARTING_TOKEN_HELP "string")
       (Some (VStr "abc"))
       (add_to_params (max_items_argument Paged.list_items)
          (Some (VInt 42)) ∅).1).1.
Proof. apply add_to_params_commute. vm_compute. discriminate. Defined.
End PageArguments.
